(** * Inventory dashboard (src/App.tsx): the fetch / update cycle

    The component keeps one state cell ([stocks]), issues two HTTP requests
    through axios ([fetchStocks], [addStock]) and renders a list from the
    cell.  The embedding has three layers:

    - JavaScript data: [Record<string, number>] as a property list in
      enumeration order, what a response can carry as [data] (such a mapping,
      or the text of a body that does not parse), axios requests, responses
      and errors;
    - the two async functions as [Task]s, whose [Await] nodes hold the code
      that follows the [await];
    - the browser around them as a [World]: the hook state of the mounted
      component, the promises in flight, and the traces of what was sent and
      what came back.  Events ([Mount], [Click], [Settle]) are the turns of
      the event loop. *)

From Stdlib Require Import String List ZArith Bool Arith Lia DecimalString.
Import ListNotations.
Local Open Scope string_scope.
Local Open Scope list_scope.

(** ** JavaScript data *)

(** What the component needs of the type [number]: its conversion to text,
    which React applies to a number child of an element. *)
Class JsNumber (number : Type) := { toString : number -> string }.

(** Integral quantities, printed in decimal as [Number.prototype.toString]
    prints an integer (of magnitude below 10^21). *)
#[export] Instance Z_JsNumber : JsNumber Z :=
  {| toString := fun z => NilEmpty.string_of_int (Z.to_int z) |}.

(** [Record<string, V>]: the own enumerable properties of the object, in the
    order in which the engine enumerates them. *)
Definition JsRecord (V : Type) : Type := list (string * V).

Definition Object_entries {V : Type} (o : JsRecord V) : list (string * V) := o.

Definition Object_keys {V : Type} (o : JsRecord V) : list string := map fst o.

(** The body of the write request: [{ name: "demo", amount: 1 }]. *)
Record StockPayload : Type := mkPayload { name : string; amount : Z }.

Inductive Request : Type :=
| Get (url : string)
| Post (url : string) (body : StockPayload).

(** Why an axios promise rejects: no response, or a status outside 2xx.  A
    2xx body that does not parse is no reason with the default configuration
    of [axios.get(url)]: the promise is fulfilled, see [JsData]. *)
Inductive AxiosError : Type :=
| NetworkError
| BadStatus (code : nat).

(** [Object.entries] of a string: its characters, each keyed by its index
    written in decimal. *)
Fixpoint String_entries (i : nat) (s : string) : list (string * string) :=
  match s with
  | EmptyString => []
  | String c s' =>
      (NilEmpty.string_of_uint (Nat.to_uint i), String c EmptyString)
        :: String_entries (S i) s'
  end.

Definition is_get (r : Request) : bool :=
  match r with Get _ => true | Post _ _ => false end.

Section Dashboard.

Context {number : Type} {JN : JsNumber number}.

(** The declared type of the state cell, [Record<string, number>]. *)
Definition Snapshot : Type := JsRecord number.

(** What [res.data] is at run time, where the type of the state cell is not
    checked: the parsed object, when the body is JSON for a mapping of
    quantities; the body itself, as text, when it does not parse (axios
    swallows the parse error and fulfils the promise all the same). *)
Inductive JsData : Type :=
| Mapping (s : Snapshot)
| Text (body : string).

(** A property value as [Object.entries] yields it: a quantity of a mapping,
    or one character of a text. *)
Inductive JsValue : Type :=
| Quantity (n : number)
| Character (c : string).

(** The text React displays for a value that is a child of an element. *)
Definition child_text (v : JsValue) : string :=
  match v with
  | Quantity n => toString n
  | Character c => c
  end.

(** [Object.entries(d)] for the data the state cell can hold. *)
Definition data_entries (d : JsData) : list (string * JsValue) :=
  match d with
  | Mapping s => map (fun kv => (fst kv, Quantity (snd kv))) (Object_entries s)
  | Text body => map (fun kv => (fst kv, Character (snd kv))) (String_entries 0 body)
  end.

(** An axios response; the component reads [data] only, and only of a GET. *)
Record AxiosResponse : Type := mkResponse { status : nat; data : JsData }.

Inductive Outcome : Type :=
| Fulfilled (res : AxiosResponse)
| Rejected (err : AxiosError).

(** ** Async functions

    The body of an async function up to its end.  [Await req k] sends [req]
    and suspends; [k] is the code after the [await], run with the response
    when the promise is fulfilled.  No function of the component has a
    [try], so a rejected promise ends the task that awaits it.  [Call f k]
    is a call [f()] of an async function whose promise is dropped: [f] runs
    to its first [await], then the caller goes on with [k]. *)
Inductive Task : Type :=
| Done
| Await (req : Request) (k : AxiosResponse -> Task)
| SetStocks (s : JsData) (k : Task)
| Call (callee : Task) (k : Task).

Definition stocks_url : string := "/v1/stocks".

Definition demo_payload : StockPayload := {| name := "demo"; amount := 1 |}.

(** [const res = await axios.get("/v1/stocks"); setStocks(res.data);] *)
Definition fetchStocks_k (res : AxiosResponse) : Task := SetStocks (data res) Done.

Definition fetchStocks : Task := Await (Get stocks_url) fetchStocks_k.

(** [await axios.post("/v1/stocks", { name: "demo", amount: 1 }); fetchStocks();] *)
Definition addStock_k (_ : AxiosResponse) : Task := Call fetchStocks Done.

Definition addStock : Task := Await (Post stocks_url demo_payload) addStock_k.

(** ** The rendered tree *)

Record Props : Type := mkProps {
  key : option string;
  className : option string;
  onClick : option Task
}.

#[warnings="-register-all"]
Inductive VNode : Type :=
| VText (s : string)
| VElem (tag : string) (props : Props) (children : list VNode).

Definition with_class (c : string) : Props :=
  {| key := None; className := Some c; onClick := None |}.

(** One [<li key={k}>{k}: {v}</li>]. *)
Definition stock_item (kv : string * JsValue) : VNode :=
  let '(k, v) := kv in
  VElem "li" {| key := Some k; className := None; onClick := None |}
        [VText k; VText ": "; VText (child_text v)].

(** The JSX that [App] returns, for the value [stocks] of the state cell. *)
Definition App_view (stocks : JsData) : VNode :=
  VElem "div" (with_class "p-4")
    [ VElem "h1" (with_class "text-xl font-bold mb-2") [VText "Inventory Dashboard"];
      VElem "button"
        {| key := None;
           className := Some "px-3 py-1 bg-blue-600 text-white rounded";
           onClick := Some addStock |}
        [VText "+ Add demo"];
      VElem "ul" (with_class "mt-4 space-y-1") (map stock_item (data_entries stocks)) ].

(** The elements with a given tag, in document order. *)
Fixpoint elements (t : string) (n : VNode) : list VNode :=
  match n with
  | VText _ => []
  | VElem t' _ cs =>
      (if String.eqb t' t then [n] else []) ++ flat_map (elements t) cs
  end.

Fixpoint textContent (n : VNode) : string :=
  match n with
  | VText s => s
  | VElem _ _ cs => String.concat "" (map textContent cs)
  end.

Definition node_key (n : VNode) : option string :=
  match n with VText _ => None | VElem _ p _ => key p end.

Definition node_onClick (n : VNode) : option Task :=
  match n with VText _ => None | VElem _ p _ => onClick p end.

(** The entries of the displayed list. *)
Definition list_entries (v : VNode) : list VNode := elements "li" v.

(** The handler a click on the button runs. *)
Definition button_handler (v : VNode) : option Task :=
  match elements "button" v with
  | b :: _ => node_onClick b
  | [] => None
  end.

(** ** Hooks *)

(** [useEffect(create, deps)]. *)
Record EffectHook : Type := mkEffect { create : Task; deps : list nat }.

(** [useEffect(() => { fetchStocks(); }, [])] *)
Definition App_effect : EffectHook :=
  {| create := Call fetchStocks Done; deps := [] |}.

(** [useState<Record<string, number>>({})]: the initial value. *)
Definition initial_stocks : JsData := Mapping [].

(** React's comparison of two dependency arrays, element by element. *)
Fixpoint areHookInputsEqual (next prev : list nat) : bool :=
  match next, prev with
  | [], [] => true
  | a :: next', b :: prev' => Nat.eqb a b && areHookInputsEqual next' prev'
  | _, _ => false
  end.

(** An effect runs after the first commit, and after a later one when its
    dependency array differs from the one of the previous commit. *)
Definition effect_fires (prev : option (list nat)) (next : list nat) : bool :=
  match prev with
  | None => true
  | Some p => negb (areHookInputsEqual next p)
  end.

(** ** The world *)

(** A promise in flight, with the task that awaits it. *)
Record Pending : Type := mkPending {
  pid : nat;
  preq : Request;
  pk : AxiosResponse -> Task
}.

Record World : Type := mkWorld {
  stocks : JsData;                 (* the state cell *)
  dirty : bool;                    (* a render is scheduled *)
  view : option VNode;             (* the committed tree; None before mount *)
  prev_deps : option (list nat);   (* the effect's array at the last commit *)
  renders : nat;                   (* render passes so far *)
  effect_runs : nat;               (* times the effect has run *)
  next_id : nat;
  pending : list Pending;
  calls : list Request;            (* requests sent, oldest first *)
  settled : list (Request * Outcome);  (* settlements delivered, oldest first *)
  unhandled : list AxiosError      (* rejections nobody caught *)
}.

Definition init : World :=
  {| stocks := initial_stocks; dirty := false; view := None; prev_deps := None;
     renders := 0; effect_runs := 0; next_id := 0; pending := []; calls := [];
     settled := []; unhandled := [] |}.

Definition mounted (w : World) : bool :=
  match prev_deps w with Some _ => true | None => false end.

(** [setStocks(s)]: the cell takes [s] and a render is scheduled. *)
Definition setStocks (s : JsData) (w : World) : World :=
  {| stocks := s; dirty := true; view := view w; prev_deps := prev_deps w;
     renders := renders w; effect_runs := effect_runs w; next_id := next_id w;
     pending := pending w; calls := calls w; settled := settled w;
     unhandled := unhandled w |}.

(** Sending a request: it is logged and its promise waits, with [k]. *)
Definition issue (req : Request) (k : AxiosResponse -> Task) (w : World) : World :=
  {| stocks := stocks w; dirty := dirty w; view := view w; prev_deps := prev_deps w;
     renders := renders w; effect_runs := effect_runs w; next_id := S (next_id w);
     pending := pending w ++ [{| pid := next_id w; preq := req; pk := k |}];
     calls := calls w ++ [req]; settled := settled w; unhandled := unhandled w |}.

(** A task runs until it ends or suspends at an [await]. *)
Fixpoint run_task (t : Task) (w : World) : World :=
  match t with
  | Done => w
  | Await req k => issue req k w
  | SetStocks s k => run_task k (setStocks s w)
  | Call callee k => run_task k (run_task callee w)
  end.

(** One render pass and its commit: the tree is rebuilt from the cell, then
    the effect runs if its dependency array says so. *)
Definition render_pass (w : World) : World :=
  let fires := effect_fires (prev_deps w) (deps App_effect) in
  let w1 :=
    {| stocks := stocks w; dirty := false; view := Some (App_view (stocks w));
       prev_deps := Some (deps App_effect); renders := S (renders w);
       effect_runs := if fires then S (effect_runs w) else effect_runs w;
       next_id := next_id w; pending := pending w; calls := calls w;
       settled := settled w; unhandled := unhandled w |} in
  if fires then run_task (create App_effect) w1 else w1.

Definition flush (w : World) : World :=
  if dirty w then render_pass w else w.

Fixpoint lookup_pending (id : nat) (l : list Pending) : option Pending :=
  match l with
  | [] => None
  | p :: l' => if Nat.eqb (pid p) id then Some p else lookup_pending id l'
  end.

Definition remove_pending (id : nat) (l : list Pending) : list Pending :=
  filter (fun p => negb (Nat.eqb (pid p) id)) l.

(** The promise [p] settles with [o]: it leaves the table and the settlement
    is logged; fulfilled, the awaiting task resumes; rejected, the task ends
    and the rejection stays unhandled. *)
Definition settle (p : Pending) (o : Outcome) (w : World) : World :=
  let w1 :=
    {| stocks := stocks w; dirty := dirty w; view := view w; prev_deps := prev_deps w;
       renders := renders w; effect_runs := effect_runs w; next_id := next_id w;
       pending := remove_pending (pid p) (pending w); calls := calls w;
       settled := settled w ++ [(preq p, o)];
       unhandled := match o with
                    | Fulfilled _ => unhandled w
                    | Rejected err => unhandled w ++ [err]
                    end |} in
  match o with
  | Fulfilled res => run_task (pk p res) w1
  | Rejected _ => w1
  end.

Inductive Event : Type :=
| Mount                              (* the component is displayed *)
| Click                              (* the user activates the button *)
| Settle (id : nat) (o : Outcome).   (* the promise [id] settles *)

Definition handle (e : Event) (w : World) : World :=
  match e with
  | Mount => if mounted w then w else render_pass w
  | Click =>
      match view w with
      | Some v =>
          match button_handler v with
          | Some h => run_task h w
          | None => w
          end
      | None => w
      end
  | Settle id o =>
      match lookup_pending id (pending w) with
      | Some p => settle p o w
      | None => w
      end
  end.

(** One turn of the event loop: the event's callback, then the scheduled
    render if there is one.  React may put the render off to a later turn;
    updates reach the cell in the order of the calls either way, so the
    snapshots committed are the same. *)
Definition step (w : World) (e : Event) : World := flush (handle e w).

Definition run (evs : list Event) (w : World) : World := fold_left step evs w.

(** ** Reading the traces *)

(** The bodies of the reads that were fulfilled, in the order they arrived. *)
Fixpoint fulfilled_reads (log : list (Request * Outcome)) : list JsData :=
  match log with
  | [] => []
  | (Get _, Fulfilled res) :: log' => data res :: fulfilled_reads log'
  | _ :: log' => fulfilled_reads log'
  end.

(** The number of writes that were fulfilled. *)
Fixpoint fulfilled_writes (log : list (Request * Outcome)) : nat :=
  match log with
  | [] => 0
  | (Post _ _, Fulfilled _) :: log' => S (fulfilled_writes log')
  | _ :: log' => fulfilled_writes log'
  end.

Definition reads (l : list Request) : list Request := filter is_get l.

Definition settles (id : nat) (e : Event) : bool :=
  match e with
  | Settle id' _ => Nat.eqb id' id
  | _ => false
  end.

(** The entries of the list on display. *)
Definition displayed_entries (w : World) : list VNode :=
  match view w with
  | Some v => list_entries v
  | None => []
  end.

(** The event in which the promise [fst r] is fulfilled with [snd r]. *)
Definition fulfil (r : nat * AxiosResponse) : Event :=
  Settle (fst r) (Fulfilled (snd r)).

(** ** The invariant of the mounted component *)

(** Every promise in flight was created by one of the two functions: a read
    awaited by the rest of [fetchStocks], or the demo write awaited by the
    rest of [addStock]. *)
Definition wf_pending (bound : nat) (p : Pending) : Prop :=
  pid p < bound /\
  ((preq p = Get stocks_url /\ pk p = fetchStocks_k) \/
   (preq p = Post stocks_url demo_payload /\ pk p = addStock_k)).

Record Inv (w : World) : Prop := mkInv {
  inv_deps : prev_deps w = Some [];
  inv_dirty : dirty w = false;
  inv_view : view w = Some (App_view (stocks w));
  inv_pending : Forall (wf_pending (next_id w)) (pending w);
  inv_effect : effect_runs w = 1;
  inv_stocks : stocks w = last (fulfilled_reads (settled w)) initial_stocks;
  inv_reads : length (reads (calls w)) = 1 + fulfilled_writes (settled w);
  inv_renders : renders w = 1 + length (fulfilled_reads (settled w))
}.

(** ** Counting requests and clicks *)

Definition writes (l : list Request) : list Request :=
  filter (fun r => negb (is_get r)) l.

Definition is_click (e : Event) : bool :=
  match e with Click => true | _ => false end.

(** The event fulfils a read that is in flight. *)
Definition fulfils_read (w : World) (e : Event) : bool :=
  match e with
  | Settle id (Fulfilled _) =>
      match lookup_pending id (pending w) with
      | Some p => is_get (preq p)
      | None => false
      end
  | _ => false
  end.

(** One of the two requests written in the component. *)
Definition app_request (r : Request) : Prop :=
  r = Get stocks_url \/ r = Post stocks_url demo_payload.

End Dashboard.

(** ** Sample data, with integral quantities *)

Definition ok (s : @Snapshot Z) : @AxiosResponse Z :=
  {| status := 200; data := Mapping s |}.

(** A 200 whose body does not parse. *)
Definition unparsed (body : string) : @AxiosResponse Z :=
  {| status := 200; data := Text body |}.

Definition fruit : @Snapshot Z := [("apples", 3%Z); ("bananas", 5%Z)].

Definition single_x : @Snapshot Z := [("x", 0%Z)].

Definition init_Z : @World Z := init.

(** * Properties *)

Section DashboardFacts.

Context {number : Type} {JN : JsNumber number}.

#[local] Abbreviation World := (@World number).
#[local] Abbreviation Pending := (@Pending number).
#[local] Abbreviation Event := (@Event number).

(** ** Traces and the table of promises *)

Lemma fulfilled_reads_app (l l' : list (Request * @Outcome number)) :
  fulfilled_reads (l ++ l') = fulfilled_reads l ++ fulfilled_reads l'.
Proof.
  induction l as [| [[u | u b] [res | err]] l IH]; simpl; rewrite ?IH; reflexivity.
Qed.

Lemma fulfilled_writes_app (l l' : list (Request * @Outcome number)) :
  fulfilled_writes (l ++ l') = fulfilled_writes l + fulfilled_writes l'.
Proof.
  induction l as [| [[u | u b] [res | err]] l IH]; simpl; rewrite ?IH; reflexivity.
Qed.

Lemma reads_app (l l' : list Request) : reads (l ++ l') = reads l ++ reads l'.
Proof. apply filter_app. Qed.

Lemma lookup_pending_In id (l : list Pending) p :
  lookup_pending id l = Some p -> In p l /\ pid p = id.
Proof.
  induction l as [| q l IH]; simpl; [discriminate |].
  destruct (Nat.eqb (pid q) id) eqn:E.
  - intros [= ->]. apply Nat.eqb_eq in E. auto.
  - intros H. destruct (IH H). auto.
Qed.

Lemma lookup_pending_app id (l l' : list Pending) p :
  lookup_pending id l = Some p -> lookup_pending id (l ++ l') = Some p.
Proof.
  induction l as [| q l IH]; simpl; [discriminate |].
  destruct (Nat.eqb (pid q) id); auto.
Qed.

Lemma lookup_remove_other id id' (l : list Pending) :
  id' <> id ->
  lookup_pending id (remove_pending id' l) = lookup_pending id l.
Proof.
  intros Hne. induction l as [| q l IH]; simpl; [reflexivity |].
  destruct (Nat.eqb (pid q) id') eqn:E'; simpl.
  - apply Nat.eqb_eq in E'.
    destruct (Nat.eqb (pid q) id) eqn:E; [apply Nat.eqb_eq in E; congruence | exact IH].
  - destruct (Nat.eqb (pid q) id); [reflexivity | exact IH].
Qed.

Lemma lookup_remove_same id (l : list Pending) :
  lookup_pending id (remove_pending id l) = None.
Proof.
  induction l as [| q l IH]; simpl; [reflexivity |].
  destruct (Nat.eqb (pid q) id) eqn:E; simpl; [exact IH | rewrite E; exact IH].
Qed.

Lemma lookup_fresh id bound (l : list Pending) :
  Forall (wf_pending bound) l -> bound <= id -> lookup_pending id l = None.
Proof.
  induction 1 as [| q l [Hq _] _ IH]; intros Hb; simpl; [reflexivity |].
  destruct (Nat.eqb (pid q) id) eqn:E; [apply Nat.eqb_eq in E; lia | auto].
Qed.

Lemma wf_pending_mono b b' (p : Pending) :
  b <= b' -> wf_pending b p -> wf_pending b' p.
Proof. intros Hb [H1 H2]. split; [lia | exact H2]. Qed.

Lemma wf_remove id bound (l : list Pending) :
  Forall (wf_pending bound) l -> Forall (wf_pending bound) (remove_pending id l).
Proof.
  intros H. apply Forall_forall. intros p Hp.
  apply filter_In in Hp. destruct Hp as [Hp _].
  revert p Hp. apply Forall_forall. exact H.
Qed.

Lemma wf_issue bound (l : list Pending) p :
  Forall (wf_pending bound) l -> wf_pending (S bound) p ->
  Forall (wf_pending (S bound)) (l ++ [p]).
Proof.
  intros H Hp. apply Forall_app. split.
  - eapply Forall_impl; [| exact H]. intros q. apply wf_pending_mono. lia.
  - constructor; [exact Hp | constructor].
Qed.

(** ** What each turn of the event loop does *)

Lemma button_handler_App (s : JsData) : button_handler (App_view s) = Some addStock.
Proof. reflexivity. Qed.

Lemma step_mount_init : Inv (step (@init number) Mount).
Proof.
  constructor; try reflexivity.
  cbn. constructor; [| constructor].
  split; [cbn; lia | left; split; reflexivity].
Qed.

Lemma step_mount (w : World) : Inv w -> step w Mount = w.
Proof.
  intros I. unfold step, handle, mounted, flush.
  rewrite (inv_deps _ I), (inv_dirty _ I). reflexivity.
Qed.

Lemma step_click (w : World) :
  Inv w -> step w Click = issue (Post stocks_url demo_payload) addStock_k w.
Proof.
  intros I. unfold step, handle.
  rewrite (inv_view _ I), button_handler_App. unfold flush. cbn.
  rewrite (inv_dirty _ I). reflexivity.
Qed.

Lemma step_settle_none (w : World) id o :
  Inv w -> lookup_pending id (pending w) = None -> step w (Settle id o) = w.
Proof.
  intros I H. unfold step, handle, flush. rewrite H, (inv_dirty _ I). reflexivity.
Qed.

Lemma pending_shape (w : World) id p :
  Inv w -> lookup_pending id (pending w) = Some p ->
  pid p = id /\ wf_pending (next_id w) p.
Proof.
  intros I H. apply lookup_pending_In in H. destruct H as [Hin Hid].
  split; [exact Hid |].
  exact (proj1 (Forall_forall _ _) (inv_pending _ I) p Hin).
Qed.

Lemma pending_get_k (w : World) id p :
  Inv w -> lookup_pending id (pending w) = Some p -> is_get (preq p) = true ->
  preq p = Get stocks_url /\ pk p = fetchStocks_k.
Proof.
  intros I H G. destruct (pending_shape _ _ _ I H) as [_ [_ [S | [S _]]]];
    [exact S | rewrite S in G; discriminate].
Qed.

Lemma pending_post_k (w : World) id p :
  Inv w -> lookup_pending id (pending w) = Some p -> is_get (preq p) = false ->
  preq p = Post stocks_url demo_payload /\ pk p = addStock_k.
Proof.
  intros I H G. destruct (pending_shape _ _ _ I H) as [_ [_ [[S _] | S]]];
    [rewrite S in G; discriminate | exact S].
Qed.

(** A fulfilled read: the cell takes the body and the tree is rebuilt; the
    effect, whose array is unchanged, does not run. *)
Lemma step_read_fulfilled (w : World) id p res :
  Inv w -> lookup_pending id (pending w) = Some p -> is_get (preq p) = true ->
  step w (Settle id (Fulfilled res)) =
  {| stocks := data res; dirty := false; view := Some (App_view (data res));
     prev_deps := Some []; renders := S (renders w); effect_runs := effect_runs w;
     next_id := next_id w; pending := remove_pending id (pending w);
     calls := calls w; settled := settled w ++ [(Get stocks_url, Fulfilled res)];
     unhandled := unhandled w |}.
Proof.
  intros I H G.
  destruct (pending_get_k _ _ _ I H G) as [Hr Hk].
  destruct (pending_shape _ _ _ I H) as [Hid _].
  unfold step, handle. rewrite H. unfold settle. rewrite Hk, Hr, Hid.
  cbn. unfold flush, render_pass. cbn. rewrite (inv_deps _ I). reflexivity.
Qed.

(** A fulfilled write: the rest of [addStock] calls [fetchStocks], which
    sends one read. *)
Lemma step_write_fulfilled (w : World) id p res :
  Inv w -> lookup_pending id (pending w) = Some p -> is_get (preq p) = false ->
  step w (Settle id (Fulfilled res)) =
  {| stocks := stocks w; dirty := false; view := view w;
     prev_deps := prev_deps w; renders := renders w; effect_runs := effect_runs w;
     next_id := S (next_id w);
     pending := remove_pending id (pending w) ++
                [{| pid := next_id w; preq := Get stocks_url; pk := fetchStocks_k |}];
     calls := calls w ++ [Get stocks_url];
     settled := settled w ++ [(Post stocks_url demo_payload, Fulfilled res)];
     unhandled := unhandled w |}.
Proof.
  intros I H G.
  destruct (pending_post_k _ _ _ I H G) as [Hr Hk].
  destruct (pending_shape _ _ _ I H) as [Hid _].
  unfold step, handle. rewrite H. unfold settle. rewrite Hk, Hr, Hid.
  cbn. unfold flush. cbn. rewrite (inv_dirty _ I). reflexivity.
Qed.

(** A rejected promise, of a read or of a write: the awaiting task ends. *)
Lemma step_rejected (w : World) id p err :
  Inv w -> lookup_pending id (pending w) = Some p ->
  step w (Settle id (Rejected err)) =
  {| stocks := stocks w; dirty := false; view := view w;
     prev_deps := prev_deps w; renders := renders w; effect_runs := effect_runs w;
     next_id := next_id w; pending := remove_pending id (pending w);
     calls := calls w; settled := settled w ++ [(preq p, Rejected err)];
     unhandled := unhandled w ++ [err] |}.
Proof.
  intros I H.
  destruct (pending_shape _ _ _ I H) as [Hid _].
  unfold step, handle. rewrite H. unfold settle. rewrite Hid.
  cbn. unfold flush. cbn. rewrite (inv_dirty _ I). reflexivity.
Qed.

(** ** The invariant holds from the mount on *)

Lemma Inv_step (w : World) (e : Event) : Inv w -> Inv (step w e).
Proof.
  intros I. destruct e as [| | id o].
  - rewrite step_mount by assumption. exact I.
  - rewrite step_click by assumption. destruct I. constructor; cbn; auto.
    + apply wf_issue; [assumption |].
      split; [cbn; lia | right; split; reflexivity].
    + rewrite reads_app, length_app. unfold reads in *. cbn in *. lia.
  - destruct (lookup_pending id (pending w)) as [p |] eqn:H.
    2: { rewrite step_settle_none by assumption. exact I. }
    destruct o as [res | err].
    + destruct (is_get (preq p)) eqn:G.
      * rewrite (step_read_fulfilled _ _ _ res I H G).
        destruct I. constructor; cbn; auto.
        -- apply wf_remove. assumption.
        -- rewrite fulfilled_reads_app. cbn. rewrite last_last. reflexivity.
        -- rewrite fulfilled_writes_app. unfold reads in *. cbn in *. lia.
        -- rewrite fulfilled_reads_app, length_app. unfold reads in *. cbn in *. lia.
      * rewrite (step_write_fulfilled _ _ _ res I H G).
        destruct I. constructor; cbn; auto.
        -- apply wf_issue; [apply wf_remove; assumption |].
           split; [cbn; lia | left; split; reflexivity].
        -- rewrite fulfilled_reads_app. cbn. rewrite app_nil_r. assumption.
        -- rewrite reads_app, length_app, fulfilled_writes_app. unfold reads in *. cbn in *. lia.
        -- rewrite fulfilled_reads_app. cbn. rewrite app_nil_r. assumption.
    + rewrite (step_rejected _ _ _ err I H).
      destruct I. constructor; cbn; auto.
      * apply wf_remove. assumption.
      * rewrite fulfilled_reads_app. destruct (preq p); cbn; rewrite app_nil_r; assumption.
      * rewrite fulfilled_writes_app. destruct (preq p); unfold reads in *; cbn in *; lia.
      * rewrite fulfilled_reads_app. destruct (preq p); cbn; rewrite app_nil_r; assumption.
Qed.

Lemma Inv_run (evs : list Event) (w : World) : Inv w -> Inv (run evs w).
Proof.
  revert w. induction evs as [| e evs IH]; intros w I; [exact I |].
  apply IH, Inv_step, I.
Qed.

Lemma run_app (evs evs' : list Event) (w : World) :
  run (evs ++ evs') w = run evs' (run evs w).
Proof. apply fold_left_app. Qed.

(** Before the mount nothing happens: there is no button and no promise. *)
Lemma step_init (e : Event) : step (@init number) e = init \/ Inv (step init e).
Proof.
  destruct e; [right; apply step_mount_init | left; reflexivity ..].
Qed.

Lemma reachable (evs : list Event) : run evs (@init number) = init \/ Inv (run evs init).
Proof.
  induction evs as [| e evs IH] using rev_ind; [left; reflexivity |].
  rewrite run_app. cbn. destruct IH as [-> | I].
  - apply step_init.
  - right. apply Inv_step, I.
Qed.

Lemma mounted_Inv (evs : list Event) : Inv (run (Mount :: evs) (@init number)).
Proof. cbn. apply Inv_run, step_mount_init. Qed.

Lemma reachable_pending (evs : list Event) id p :
  lookup_pending id (pending (run evs (@init number))) = Some p -> Inv (run evs init).
Proof.
  destruct (reachable evs) as [-> | I]; [discriminate | trivial].
Qed.

(** A promise stays in the table, with its task, until it settles. *)
Lemma pending_persists_step (w : World) (e : Event) id p :
  Inv w -> settles id e = false ->
  lookup_pending id (pending w) = Some p ->
  lookup_pending id (pending (step w e)) = Some p.
Proof.
  intros I Hs H. destruct e as [| | id' o].
  - rewrite step_mount by assumption. exact H.
  - rewrite step_click by assumption. cbn. apply lookup_pending_app, H.
  - cbn in Hs. apply Nat.eqb_neq in Hs.
    destruct (lookup_pending id' (pending w)) as [q |] eqn:H'.
    2: { rewrite step_settle_none by assumption. exact H. }
    destruct o as [res | err].
    + destruct (is_get (preq q)) eqn:G.
      * rewrite (step_read_fulfilled _ _ _ res I H' G). cbn.
        rewrite lookup_remove_other by assumption. exact H.
      * rewrite (step_write_fulfilled _ _ _ res I H' G). cbn.
        apply lookup_pending_app. rewrite lookup_remove_other by assumption. exact H.
    + rewrite (step_rejected _ _ _ err I H'). cbn.
      rewrite lookup_remove_other by assumption. exact H.
Qed.

Lemma pending_persists (evs : list Event) (w : World) id p :
  Inv w -> forallb (fun e => negb (settles id e)) evs = true ->
  lookup_pending id (pending w) = Some p ->
  lookup_pending id (pending (run evs w)) = Some p.
Proof.
  revert w. induction evs as [| e evs IH]; intros w I Hs H; [exact H |].
  cbn in Hs. apply andb_true_iff in Hs. destruct Hs as [He Hs].
  apply negb_true_iff in He. cbn.
  apply IH; [apply Inv_step, I | exact Hs | apply pending_persists_step; assumption].
Qed.

(** The write that a click sends waits until it settles. *)
Lemma click_pending (w : World) (evs : list Event) :
  Inv w -> forallb (fun e => negb (settles (next_id w) e)) evs = true ->
  lookup_pending (next_id w) (pending (run evs (step w Click))) =
  Some {| pid := next_id w; preq := Post stocks_url demo_payload; pk := addStock_k |}.
Proof.
  intros I Hs. apply pending_persists; [apply Inv_step, I | exact Hs |].
  rewrite step_click by assumption. cbn.
  assert (F : lookup_pending (next_id w) (pending w) = None)
    by (eapply lookup_fresh; [apply (inv_pending _ I) | lia]).
  revert F. generalize (pending w). intros l. induction l as [| q l IH]; cbn.
  - rewrite Nat.eqb_refl. reflexivity.
  - destruct (Nat.eqb (pid q) (next_id w)); [discriminate | exact IH].
Qed.

(** The view shows the cell: what is displayed depends on nothing else. *)
Lemma list_entries_App (s : @JsData number) :
  list_entries (App_view s) = map stock_item (data_entries s).
Proof.
  unfold list_entries, App_view. cbn.
  rewrite app_nil_r.
  induction (data_entries s) as [| [k v] l IH]; cbn; [reflexivity | rewrite IH; reflexivity].
Qed.

Lemma last_cons_default {A : Type} (l : list A) (a d : A) :
  last (a :: l) d = last l a.
Proof.
  revert a d. induction l as [| b l IH]; intros a d; [reflexivity |].
  change (last (a :: b :: l) d) with (last (b :: l) d).
  rewrite (IH b d), (IH b a). reflexivity.
Qed.

(** The cell holds the body of the read that was fulfilled last. *)
Lemma snapshot_is_last_read (evs : list Event) :
  stocks (run evs (@init number)) =
  last (fulfilled_reads (settled (run evs init))) initial_stocks.
Proof.
  destruct (reachable evs) as [-> | I]; [reflexivity | apply (inv_stocks _ I)].
Qed.

Lemma fulfil_reads_in_turn (rs : list (nat * AxiosResponse)) (w : World) :
  Inv w ->
  NoDup (map fst rs) ->
  (forall id, In id (map fst rs) ->
     exists p, lookup_pending id (pending w) = Some p /\ is_get (preq p) = true) ->
  stocks (run (map fulfil rs) w) = last (map (fun r => data (snd r)) rs) (stocks w).
Proof.
  revert w. induction rs as [| [id res] rs IH]; intros w I D P; [reflexivity |].
  cbn [map fst] in D. inversion D as [| ? ? Hnotin D']; subst.
  destruct (P id) as [p [H G]]; [left; reflexivity |].
  cbn [map run fold_left fulfil fst snd].
  change (fold_left step (map fulfil rs) ?x) with (run (map fulfil rs) x).
  rewrite IH.
  - change (fulfil (id, res)) with (Settle id (Fulfilled res)).
    rewrite (step_read_fulfilled _ _ _ res I H G). cbn [stocks].
    rewrite last_cons_default. reflexivity.
  - apply Inv_step, I.
  - exact D'.
  - intros id' Hin. destruct (P id') as [q [Hq Gq]]; [right; exact Hin |].
    exists q. split; [| exact Gq].
    apply pending_persists_step; [exact I | | exact Hq].
    cbn. apply Nat.eqb_neq. intros ->. contradiction.
Qed.

Lemma lookup_pending_app_none id (l l' : list Pending) :
  lookup_pending id l = None -> lookup_pending id (l ++ l') = lookup_pending id l'.
Proof.
  induction l as [| q l IH]; simpl; [reflexivity |].
  destruct (Nat.eqb (pid q) id); [discriminate | exact IH].
Qed.

(** Only a fulfilled write sends a request when it settles. *)
Lemma settle_sends_nothing (w : World) id o :
  Inv w ->
  (forall q, lookup_pending id (pending w) = Some q -> is_get (preq q) = true) ->
  calls (step w (Settle id o)) = calls w.
Proof.
  intros I G. destruct (lookup_pending id (pending w)) as [q |] eqn:H.
  - destruct o as [res | err].
    + rewrite (step_read_fulfilled _ _ _ res I H (G q eq_refl)). reflexivity.
    + rewrite (step_rejected _ _ _ err I H). reflexivity.
  - rewrite step_settle_none by assumption. reflexivity.
Qed.

(** ** The claims *)

(** C1. A List operation that succeeds: once its promise is fulfilled, the
    state cell holds exactly the response body, whatever it held before
    (nothing of the prior snapshot is kept), and the tree on display is the
    one built from that body. *)
Theorem list_success_replaces_snapshot (evs : list Event) id p res :
  lookup_pending id (pending (run evs (@init number))) = Some p ->
  is_get (preq p) = true ->
  let w' := step (run evs init) (Settle id (Fulfilled res)) in
  stocks w' = data res /\ view w' = Some (App_view (data res)).
Proof.
  intros H G w'. subst w'.
  rewrite (step_read_fulfilled _ _ _ res (reachable_pending _ _ _ H) H G).
  split; reflexivity.
Qed.

(** C3, as the code has it. A List operation fails when axios rejects its
    promise, on a network error or a status outside 2xx: the state cell after
    the rejection is then the one before it, no render takes place, the tree
    on display stays, and the rejection is left unhandled.  A 2xx response
    whose body does not parse is no failure: its promise is fulfilled with
    the body as text, and that text replaces the snapshot. *)
Theorem list_rejection_keeps_snapshot (evs : list Event) id p err st body :
  lookup_pending id (pending (run evs (@init number))) = Some p ->
  is_get (preq p) = true ->
  let w := run evs init in
  let w' := step w (Settle id (Rejected err)) in
  let w'' := step w (Settle id (Fulfilled {| status := st; data := Text body |})) in
  (stocks w' = stocks w /\ view w' = view w /\ renders w' = renders w /\
   unhandled w' = unhandled w ++ [err]) /\
  (stocks w'' = Text body /\ view w'' = Some (App_view (Text body)) /\
   unhandled w'' = unhandled w).
Proof.
  intros H G w w' w''. subst w w' w''.
  rewrite (step_rejected _ _ _ err (reachable_pending _ _ _ H) H).
  rewrite (step_read_fulfilled _ _ _ _ (reachable_pending _ _ _ H) H G).
  repeat split; reflexivity.
Qed.

(** C4. The state cell is created empty, and it is the empty mapping in every
    state in which no List operation has been fulfilled yet. *)
Theorem snapshot_empty_before_first_read (evs : list Event) :
  fulfilled_reads (settled (run evs (@init number))) = [] ->
  stocks (@init number) = Mapping [] /\ stocks (run evs init) = Mapping [].
Proof.
  intros H. split; [reflexivity |].
  rewrite snapshot_is_last_read, H. reflexivity.
Qed.

(** C5. Displaying the component sends the List request: after the mount
    alone, with no click, exactly GET /v1/stocks has been sent and its
    promise is awaited by the rest of fetchStocks. *)
Theorem mount_triggers_read :
  calls (@init number) = [] /\
  calls (step (@init number) Mount) = [Get "/v1/stocks"] /\
  pending (step (@init number) Mount) =
    [{| pid := 0; preq := Get "/v1/stocks"; pk := fetchStocks_k |}].
Proof. repeat split; reflexivity. Qed.

(** C7. Reads resolve in any order: when promises of reads in flight are
    fulfilled one after the other, in whatever order relative to the order
    in which they were sent, the state cell ends with the body that arrived
    last (and is unchanged if none arrived). *)
Theorem last_resolved_read_wins (evs : list Event) (rs : list (nat * AxiosResponse)) :
  let w := run evs (@init number) in
  NoDup (map fst rs) ->
  (forall id, In id (map fst rs) ->
     exists p, lookup_pending id (pending w) = Some p /\ is_get (preq p) = true) ->
  stocks (run (map fulfil rs) w) = last (map (fun r => data (snd r)) rs) (stocks w).
Proof.
  intros w D P. destruct rs as [| r rs]; [reflexivity |].
  apply fulfil_reads_in_turn; [| exact D | exact P].
  destruct (P (fst r)) as [p [H _]]; [left; reflexivity |].
  exact (reachable_pending _ _ _ H).
Qed.

(** C2, as the code has it. An activation of the create action sends exactly
    the write POST /v1/stocks with body {name: "demo", amount: 1}.  Whatever
    happens until that write settles, its settlement sends exactly one read
    GET /v1/stocks when the write is fulfilled and nothing when it is
    rejected; the write then is no longer awaited, and the settlement of the
    read sends nothing more. *)
Theorem create_action_calls (evs evs2 : list Event) (o o' : Outcome) :
  let w := run (Mount :: evs) (@init number) in
  let n := next_id w in
  let w1 := step w Click in
  let w2 := run evs2 w1 in
  let w3 := step w2 (Settle n o) in
  forallb (fun e => negb (settles n e)) evs2 = true ->
  calls w1 = calls w ++ [Post "/v1/stocks" {| name := "demo"; amount := 1 |}] /\
  calls w3 = calls w2 ++ match o with
                         | Fulfilled _ => [Get "/v1/stocks"]
                         | Rejected _ => []
                         end /\
  lookup_pending n (pending w3) = None /\
  calls (step w3 (Settle (next_id w2) o')) = calls w3.
Proof.
  intros w n w1 w2 w3 Hs.
  assert (I : Inv w) by apply mounted_Inv.
  assert (I2 : Inv w2) by (apply Inv_run, Inv_step, I).
  pose proof (click_pending w evs2 I Hs) as H. fold n w1 w2 in H.
  assert (F : lookup_pending (next_id w2) (remove_pending n (pending w2)) = None)
    by (eapply lookup_fresh; [apply wf_remove, (inv_pending _ I2) | lia]).
  split; [unfold w1; rewrite step_click by assumption; reflexivity |].
  assert (I3 : Inv w3) by apply Inv_step, I2.
  destruct o as [res | err]; unfold w3 in *.
  - rewrite (step_write_fulfilled _ _ _ res I2 H eq_refl) in *. cbn [calls pending].
    repeat split.
    + rewrite lookup_pending_app_none by apply lookup_remove_same.
      cbn. destruct (Nat.eqb (next_id w2) n) eqn:E; [| reflexivity].
      apply Nat.eqb_eq in E. apply pending_shape in H; [| exact I2].
      destruct H as [_ [Hlt _]]. cbn in Hlt. lia.
    + rewrite (settle_sends_nothing _ (next_id w2) o' I3); [reflexivity |].
      cbn [pending]. rewrite lookup_pending_app_none by exact F.
      cbn. rewrite Nat.eqb_refl. intros q [= <-]. reflexivity.
  - rewrite (step_rejected _ _ _ err I2 H) in *. cbn [calls pending].
    repeat split.
    + symmetry. apply app_nil_r.
    + exact (lookup_remove_same n (pending w2)).
    + rewrite (settle_sends_nothing _ (next_id w2) o' I3); [reflexivity |].
      cbn [pending]. rewrite F. discriminate.
Qed.

(** C8. When the write of an activation is rejected, that activation sends
    no read: the rejection sends no request and leaves nothing of the
    activation in flight, and the state cell and the tree on display are as
    before.  The refresh read is sent when the write is fulfilled. *)
Theorem write_failure_skips_read (evs evs2 : list Event) (err : AxiosError) :
  let w := run (Mount :: evs) (@init number) in
  let n := next_id w in
  let w2 := run evs2 (step w Click) in
  let w3 := step w2 (Settle n (Rejected err)) in
  forallb (fun e => negb (settles n e)) evs2 = true ->
  calls w3 = calls w2 /\
  pending w3 = remove_pending n (pending w2) /\
  stocks w3 = stocks w2 /\ view w3 = view w2 /\
  (forall res, calls (step w2 (Settle n (Fulfilled res))) = calls w2 ++ [Get "/v1/stocks"]).
Proof.
  intros w n w2 w3 Hs.
  assert (I : Inv w) by apply mounted_Inv.
  assert (I2 : Inv w2) by (apply Inv_run, Inv_step, I).
  pose proof (click_pending w evs2 I Hs) as H. fold n w2 in H.
  unfold w3. rewrite (step_rejected _ _ _ err I2 H).
  repeat split.
  intros res. rewrite (step_write_fulfilled _ _ _ res I2 H eq_refl). reflexivity.
Qed.

(** C9. The effect of the mount runs once: in every state of the mounted
    component it has run exactly once, however many render passes there have
    been (here one for the mount and one in the turn of each fulfilled read),
    and every read sent besides the initial one answers a fulfilled write. *)
Theorem effect_reads_once (evs : list Event) :
  let w := run (Mount :: evs) (@init number) in
  effect_runs w = 1 /\
  renders w = 1 + length (fulfilled_reads (settled w)) /\
  length (reads (calls w)) = 1 + fulfilled_writes (settled w).
Proof.
  intros w. pose proof (mounted_Inv evs) as I. fold w in I.
  repeat split; [apply (inv_effect _ I) | apply (inv_renders _ I) | apply (inv_reads _ I)].
Qed.

(** C10. What is displayed is a function of the snapshot alone: two mounted
    components whose state cells are equal display the same tree, whatever
    else differs between them; the list has one entry per property of the
    cell, in enumeration order, keyed by the name and reading "name: value";
    for a snapshot that is a mapping of quantities, one entry
    "name: quantity" per key, in the key enumeration order. *)
Theorem render_depends_on_snapshot_only (evs1 evs2 : list Event) :
  let w1 := run (Mount :: evs1) (@init number) in
  let w2 := run (Mount :: evs2) (@init number) in
  stocks w1 = stocks w2 ->
  view w1 = view w2 /\
  map textContent (displayed_entries w1) =
    map (fun kv => (fst kv ++ ": " ++ child_text (snd kv))%string)
        (data_entries (stocks w2)) /\
  map node_key (displayed_entries w1) = map Some (map fst (data_entries (stocks w2))) /\
  (forall s : Snapshot, stocks w2 = Mapping s ->
     map textContent (displayed_entries w1) =
       map (fun kv => (fst kv ++ ": " ++ toString (snd kv))%string) (Object_entries s) /\
     map node_key (displayed_entries w1) = map Some (Object_keys s)).
Proof.
  intros w1 w2 E.
  pose proof (inv_view _ (mounted_Inv evs1)) as V1.
  pose proof (inv_view _ (mounted_Inv evs2)) as V2.
  fold w1 in V1. fold w2 in V2.
  unfold displayed_entries. rewrite V1, V2, E, list_entries_App.
  rewrite !map_map.
  split; [reflexivity |].
  split; [apply map_ext; intros [k v]; reflexivity |].
  split; [apply map_ext; intros [k v]; reflexivity |].
  intros s ->. unfold Object_keys, Object_entries. cbn [data_entries].
  unfold Object_entries. rewrite !map_map.
  split; apply map_ext; intros [k v]; reflexivity.
Qed.

End DashboardFacts.

(** * Further properties of the component *)

Section DashboardMore.

Context {number : Type} {JN : JsNumber number}.

#[local] Abbreviation World := (@World number).
#[local] Abbreviation Pending := (@Pending number).
#[local] Abbreviation Event := (@Event number).

Lemma writes_app (l l' : list Request) : writes (l ++ l') = writes l ++ writes l'.
Proof. apply filter_app. Qed.

Lemma calls_fixed_step (w : World) (e : Event) :
  Inv w -> Forall app_request (calls w) -> Forall app_request (calls (step w e)).
Proof.
  intros I F. destruct e as [| | id o].
  - rewrite step_mount by assumption. exact F.
  - rewrite step_click by assumption. cbn [calls issue].
    apply Forall_app. split; [exact F |].
    constructor; [right; reflexivity | constructor].
  - destruct (lookup_pending id (pending w)) as [p |] eqn:H.
    2: { rewrite step_settle_none by assumption. exact F. }
    destruct o as [res | err].
    + destruct (is_get (preq p)) eqn:G.
      * rewrite (step_read_fulfilled _ _ _ res I H G). exact F.
      * rewrite (step_write_fulfilled _ _ _ res I H G). cbn [calls].
        apply Forall_app. split; [exact F |].
        constructor; [left; reflexivity | constructor].
    + rewrite (step_rejected _ _ _ err I H). exact F.
Qed.

Lemma calls_fixed (evs : list Event) :
  Forall app_request (calls (run evs (@init number))).
Proof.
  induction evs as [| e evs IH] using rev_ind; [constructor |].
  rewrite run_app. cbn. destruct (reachable evs) as [E | I].
  - rewrite E. destruct e; cbn; [| constructor ..].
    constructor; [left; reflexivity | constructor].
  - apply calls_fixed_step; assumption.
Qed.

Lemma step_writes (w : World) (e : Event) :
  Inv w ->
  length (writes (calls (step w e))) =
  length (writes (calls w)) + (if is_click e then 1 else 0).
Proof.
  intros I. destruct e as [| | id o]; cbn [is_click].
  - rewrite step_mount by assumption. lia.
  - rewrite step_click by assumption. cbn [calls issue].
    rewrite writes_app, length_app. reflexivity.
  - destruct (lookup_pending id (pending w)) as [p |] eqn:H.
    2: { rewrite step_settle_none by assumption. lia. }
    destruct o as [res | err].
    + destruct (is_get (preq p)) eqn:G.
      * rewrite (step_read_fulfilled _ _ _ res I H G). cbn [calls]. lia.
      * rewrite (step_write_fulfilled _ _ _ res I H G). cbn [calls].
        rewrite writes_app, length_app. cbn. lia.
    + rewrite (step_rejected _ _ _ err I H). cbn [calls]. lia.
Qed.

Lemma run_writes (evs : list Event) (w : World) :
  Inv w ->
  length (writes (calls (run evs w))) =
  length (writes (calls w)) + length (filter is_click evs).
Proof.
  revert w. induction evs as [| e evs IH]; intros w I; [cbn; lia |].
  cbn [run fold_left]. change (fold_left step evs ?x) with (run evs x).
  rewrite IH by apply Inv_step, I. rewrite step_writes by assumption.
  cbn [filter]. destruct (is_click e); cbn [length]; lia.
Qed.

Lemma NoDup_map_Some {A : Type} (l : list A) : NoDup l -> NoDup (map Some l).
Proof.
  induction 1 as [| a l Ha _ IH]; cbn; constructor; [| exact IH].
  intros H. apply in_map_iff in H. destruct H as [b [[= ->] Hb]]. contradiction.
Qed.

(** ** Further properties of the component *)

(** X3. The button is never disabled: from the mount on, every click sends a
    write, whatever is in flight, so the writes sent number the clicks. *)
Theorem writes_match_clicks (evs : list Event) :
  length (writes (calls (run (Mount :: evs) (@init number)))) =
  length (filter is_click evs).
Proof.
  cbn [run fold_left]. change (fold_left step evs ?x) with (run evs x).
  rewrite run_writes by apply step_mount_init. reflexivity.
Qed.

(** X4. The component sends nothing but its two requests: every request ever
    sent is GET /v1/stocks or POST /v1/stocks with the body
    {name: "demo", amount: 1}. *)
Theorem only_app_requests (evs : list Event) :
  Forall (fun r => r = Get "/v1/stocks" \/
                   r = Post "/v1/stocks" {| name := "demo"; amount := 1 |})
         (calls (run evs (@init number))).
Proof. exact (calls_fixed evs). Qed.

(** X6. Only a fulfilled read updates the display: an event that does not
    fulfil a read in flight (a click, a fulfilled write, any rejection, a
    settlement of nothing) leaves the state cell and the tree on display of
    the mounted component as they are. *)
Theorem only_fulfilled_read_updates (evs : list Event) (e : Event) :
  let w := run (Mount :: evs) (@init number) in
  fulfils_read w e = false ->
  stocks (step w e) = stocks w /\ view (step w e) = view w.
Proof.
  intros w F. assert (I : Inv w) by apply mounted_Inv.
  destruct e as [| | id o].
  - rewrite step_mount by assumption. auto.
  - rewrite step_click by assumption. auto.
  - cbn [fulfils_read] in F.
    destruct (lookup_pending id (pending w)) as [p |] eqn:H.
    2: { rewrite step_settle_none by assumption. auto. }
    destruct o as [res | err].
    + rewrite (step_write_fulfilled _ _ _ res I H F). auto.
    + rewrite (step_rejected _ _ _ err I H). auto.
Qed.

(** X8. The entries of the list have distinct React keys whenever the
    properties of the snapshot have distinct names. *)
Theorem entry_keys_distinct (s : @Snapshot number) :
  NoDup (Object_keys s) ->
  NoDup (map node_key (list_entries (App_view (Mapping s)))).
Proof.
  intros D. rewrite list_entries_App. cbn [data_entries].
  unfold Object_entries, Object_keys in *.
  rewrite !map_map.
  rewrite (map_ext _ (fun kv => Some (fst kv))) by (intros [k v]; reflexivity).
  rewrite <- (map_map fst Some).
  apply NoDup_map_Some, D.
Qed.

(** X9. A turn of the event loop sends at most one request, after those
    already sent: the requests sent are never reordered or withdrawn. *)
Theorem one_request_per_turn (evs : list Event) (e : Event) :
  let w := run evs (@init number) in
  exists sent, calls (step w e) = calls w ++ sent /\ length sent <= 1.
Proof.
  intros w. subst w. destruct (reachable evs) as [-> | I].
  - destruct e; [exists [Get stocks_url] | exists [] ..]; split; cbn; auto.
  - destruct e as [| | id o].
    + rewrite step_mount by assumption. exists []. rewrite app_nil_r. auto.
    + rewrite step_click by assumption. eexists. split; [reflexivity | cbn; lia].
    + destruct (lookup_pending id (pending (run evs init))) as [p |] eqn:H.
      2: { rewrite step_settle_none by assumption. exists []. rewrite app_nil_r. auto. }
      destruct o as [res | err].
      * destruct (is_get (preq p)) eqn:G.
        -- rewrite (step_read_fulfilled _ _ _ res I H G).
           exists []. rewrite app_nil_r. auto.
        -- rewrite (step_write_fulfilled _ _ _ res I H G).
           eexists. split; [reflexivity | cbn; lia].
      * rewrite (step_rejected _ _ _ err I H). exists []. rewrite app_nil_r. auto.
Qed.

(** X10. The response to a write is not inspected: fulfilled with one
    response or with another, the write leaves the same state cell, the
    same tree on display, the same requests sent and the same promises in
    flight. *)
Theorem write_response_ignored (evs : list Event) id p (r1 r2 : AxiosResponse) :
  let w := run evs (@init number) in
  lookup_pending id (pending w) = Some p ->
  is_get (preq p) = false ->
  let w1 := step w (Settle id (Fulfilled r1)) in
  let w2 := step w (Settle id (Fulfilled r2)) in
  stocks w1 = stocks w2 /\ view w1 = view w2 /\ calls w1 = calls w2 /\
  pending w1 = pending w2 /\ unhandled w1 = unhandled w2.
Proof.
  intros w H G w1 w2. subst w1 w2.
  pose proof (reachable_pending _ _ _ H) as I. fold w in I.
  rewrite (step_write_fulfilled _ _ _ r1 I H G), (step_write_fulfilled _ _ _ r2 I H G).
  repeat split; reflexivity.
Qed.

End DashboardMore.

(** * The claims on sample runs *)

(** C6. The snapshot [{"x": 0}] is displayed as exactly one list entry, keyed
    "x", whose text reads "x: 0". *)
Theorem render_single_entry :
  map textContent (list_entries (App_view (Mapping [("x", 0%Z)]))) = ["x: 0"] /\
  map node_key (list_entries (App_view (Mapping [("x", 0%Z)]))) = [Some "x"].
Proof. split; reflexivity. Qed.

(** C1 on the response [{"apples": 3, "bananas": 5}] to the read of the mount. *)
Lemma list_success_replaces_snapshot_witness :
  let w' := step (run [Mount] init_Z) (Settle 0 (Fulfilled (ok fruit))) in
  stocks w' = Mapping [("apples", 3%Z); ("bananas", 5%Z)] /\
  view w' = Some (App_view (Mapping [("apples", 3%Z); ("bananas", 5%Z)])).
Proof.
  exact (list_success_replaces_snapshot [Mount] 0
           {| pid := 0; preq := Get "/v1/stocks"; pk := fetchStocks_k |}
           (ok fruit) eq_refl eq_refl).
Defined.

(** C3, as the spec words it, fails: a refresh read answered 200 with a body
    that does not parse is fulfilled, and the snapshot on display gives way
    to the characters of that body. *)
Lemma list_malformed_body_replaces_snapshot :
  let w := run [Mount; Settle 0 (Fulfilled (ok fruit)); Click;
                Settle 1 (Fulfilled (ok []))] init_Z in
  let w' := step w (Settle 2 (Fulfilled (unparsed "<p>"))) in
  stocks w = Mapping fruit /\
  stocks w' = Text "<p>" /\
  stocks w' <> stocks w /\
  map textContent (displayed_entries w') = ["0: <"; "1: p"; "2: >"].
Proof.
  repeat split; try reflexivity. cbn. discriminate.
Qed.

(** C3 as the code has it, on a refresh read that meets a 503, or else a 200
    with a body that does not parse, after a first read was displayed. *)
Lemma list_rejection_keeps_snapshot_witness :
  let w := run [Mount; Settle 0 (Fulfilled (ok fruit)); Click;
                Settle 1 (Fulfilled (ok []))] init_Z in
  let w' := step w (Settle 2 (Rejected (BadStatus 503))) in
  let w'' := step w (Settle 2 (Fulfilled (unparsed "<p>"))) in
  stocks w = Mapping fruit /\
  (stocks w' = stocks w /\ view w' = view w /\ renders w' = renders w /\
   unhandled w' = unhandled w ++ [BadStatus 503]) /\
  (stocks w'' = Text "<p>" /\ view w'' = Some (App_view (Text "<p>")) /\
   unhandled w'' = unhandled w).
Proof.
  split; [reflexivity |].
  exact (list_rejection_keeps_snapshot
           [Mount; Settle 0 (Fulfilled (ok fruit)); Click; Settle 1 (Fulfilled (ok []))] 2
           {| pid := 2; preq := Get "/v1/stocks"; pk := fetchStocks_k |}
           (BadStatus 503) 200 "<p>" eq_refl eq_refl).
Defined.

(** C4 on a run in which the first read fails and a write goes through. *)
Lemma snapshot_empty_before_first_read_witness :
  let evs := [Mount; Click; Settle 0 (Rejected NetworkError);
              Settle 1 (Fulfilled (ok []))] in
  fulfilled_reads (settled (run evs init_Z)) = [] /\
  stocks init_Z = Mapping [] /\ stocks (run evs init_Z) = Mapping [].
Proof.
  split; [reflexivity |].
  exact (snapshot_empty_before_first_read
           [Mount; Click; Settle 0 (Rejected NetworkError); Settle 1 (Fulfilled (ok []))]
           eq_refl).
Defined.

(** C7 on two reads in flight, the read of the mount (promise 0) and the
    refresh read of an activation (promise 2), that resolve in the reverse
    of the order in which they were sent: the body of the older read stays. *)
Lemma last_resolved_read_wins_witness :
  let w := run [Mount; Click; Settle 1 (Fulfilled (ok []))] init_Z in
  map (fun p => (pid p, preq p)) (pending w) =
    [(0, Get "/v1/stocks"); (2, Get "/v1/stocks")] /\
  stocks (run [Settle 2 (Fulfilled (ok fruit)); Settle 0 (Fulfilled (ok single_x))] w)
  = Mapping single_x.
Proof.
  split; [reflexivity |].
  refine (last_resolved_read_wins
            [Mount; Click; Settle 1 (Fulfilled (ok []))]
            [(2, ok fruit); (0, ok single_x)] _ _).
  - repeat constructor; cbn; intuition discriminate.
  - intros id [<- | [<- | []]]; eexists; split; reflexivity.
Defined.

(** C2, as the spec words it, fails: when the write of an activation is
    rejected, the requests sent end with that write, and no read follows. *)
Lemma create_action_read_not_sent_on_failure :
  calls (run [Mount; Click; Settle 1 (Rejected NetworkError)] init_Z) =
    [Get "/v1/stocks"; Post "/v1/stocks" {| name := "demo"; amount := 1 |}] /\
  ~ (forall o : @Outcome Z,
       exists sent,
         calls (run [Mount; Click; Settle 1 o] init_Z) =
         sent ++ [Post "/v1/stocks" {| name := "demo"; amount := 1 |};
                  Get "/v1/stocks"]).
Proof.
  split; [reflexivity |].
  intros H. destruct (H (Rejected NetworkError)) as [sent E].
  apply (f_equal (@rev Request)) in E. rewrite rev_app_distr in E.
  cbn in E. discriminate.
Qed.

(** C2 as the code has it, on an activation whose write is fulfilled after
    the read of the mount has resolved. *)
Lemma create_action_calls_witness :
  let w := run [Mount] init_Z in
  let w1 := step w Click in
  let w2 := run [Settle 0 (Fulfilled (ok fruit))] w1 in
  let w3 := step w2 (Settle 1 (Fulfilled (ok []))) in
  calls w1 = calls w ++ [Post "/v1/stocks" {| name := "demo"; amount := 1 |}] /\
  calls w3 = calls w2 ++ [Get "/v1/stocks"] /\
  lookup_pending 1 (pending w3) = None /\
  calls (step w3 (Settle 2 (Fulfilled (ok single_x)))) = calls w3.
Proof.
  exact (create_action_calls [] [Settle 0 (Fulfilled (ok fruit))]
           (Fulfilled (ok [])) (Fulfilled (ok single_x)) eq_refl).
Defined.

(** C8 on an activation whose write meets a network error. *)
Lemma write_failure_skips_read_witness :
  let w2 := run [Mount; Settle 0 (Fulfilled (ok fruit)); Click] init_Z in
  let w3 := step w2 (Settle 1 (Rejected NetworkError)) in
  calls w3 = calls w2 /\
  pending w3 = remove_pending 1 (pending w2) /\
  stocks w3 = stocks w2 /\ view w3 = view w2 /\
  (forall res, calls (step w2 (Settle 1 (Fulfilled res))) = calls w2 ++ [Get "/v1/stocks"]).
Proof.
  exact (write_failure_skips_read [Settle 0 (Fulfilled (ok fruit))] [] NetworkError eq_refl).
Defined.

(** C10 on two runs that differ in what was sent and what is in flight, and
    agree on the snapshot. *)
Lemma render_depends_on_snapshot_only_witness :
  let w1 := run [Mount; Settle 0 (Fulfilled (ok single_x))] init_Z in
  let w2 := run [Mount; Click; Settle 0 (Fulfilled (ok single_x));
                 Settle 1 (Rejected (BadStatus 500)); Click] init_Z in
  calls w1 <> calls w2 /\
  view w1 = view w2 /\
  map textContent (displayed_entries w1) = ["x: 0"] /\
  map node_key (displayed_entries w1) = [Some "x"].
Proof.
  split; [cbn; discriminate |].
  destruct (render_depends_on_snapshot_only
              [Settle 0 (Fulfilled (ok single_x))]
              [Click; Settle 0 (Fulfilled (ok single_x));
               Settle 1 (Rejected (BadStatus 500)); Click]
              eq_refl) as (V & T & K & _).
  exact (conj V (conj T K)).
Defined.

(** * The further properties on sample runs *)

(** X6 on a fulfilled write: the display waits for the refresh read. *)
Lemma only_fulfilled_read_updates_witness :
  let w := run [Mount; Settle 0 (Fulfilled (ok fruit)); Click] init_Z in
  let e := Settle 1 (Fulfilled (ok single_x)) in
  fulfils_read w e = false /\
  stocks (step w e) = stocks w /\ view (step w e) = view w.
Proof.
  split; [reflexivity |].
  exact (only_fulfilled_read_updates [Settle 0 (Fulfilled (ok fruit)); Click]
           (Settle 1 (Fulfilled (ok single_x))) eq_refl).
Defined.

(** X8 on the snapshot [{"apples": 3, "bananas": 5}]. *)
Lemma entry_keys_distinct_witness :
  NoDup (map node_key (list_entries (App_view (Mapping fruit)))).
Proof.
  apply (entry_keys_distinct fruit).
  repeat constructor; cbn; intuition discriminate.
Defined.

(** X10 on the write of an activation, answered with one body or another. *)
Lemma write_response_ignored_witness :
  let w := run [Mount; Click] init_Z in
  let w1 := step w (Settle 1 (Fulfilled (ok fruit))) in
  let w2 := step w (Settle 1 (Fulfilled (ok []))) in
  stocks w1 = stocks w2 /\ view w1 = view w2 /\ calls w1 = calls w2 /\
  pending w1 = pending w2 /\ unhandled w1 = unhandled w2.
Proof.
  exact (write_response_ignored [Mount; Click] 1
           {| pid := 1; preq := Post "/v1/stocks" {| name := "demo"; amount := 1 |};
              pk := addStock_k |}
           (ok fruit) (ok []) eq_refl eq_refl).
Defined.
